(** * scipy4cv: the "process a bundle of images in parallel" notebook

  A shallow embedding of the code cells of the IPython.parallel notebook:
  the remote function [get_num_matches], the cell that assembles the
  argument list and submits it with [map], and the cell that iterates
  over the asynchronous result.

  The cells are Python 2 glue over two external libraries, OpenCV ([cv2])
  and ipyparallel.  The libraries are interfaces here ([Cv2.Lib],
  [Cluster.View]); the cells are written once, over any implementation of
  them, in a small state-and-exception monad. *)

From Stdlib Require Import ZArith Lia.
From stdpp Require Import base list strings gmap pretty.

Set Default Proof Using "Type".

(** ** Python values, exceptions and the interpreter state *)

Module Py.

(** An exception object, as the notebook records one: [ename], [evalue]. *)
Record exc := Exc { ename : string; evalue : string }.

(** Where an exception was raised: while the interpreter evaluated an
    expression of the cell itself, or inside a call into a library. *)
Inductive raised :=
| Glue (e : exc)
| External (e : exc).

Inductive result (E A : Type) :=
| Ok (a : A)
| Raise (e : E).
Arguments Ok {E A} a.
Arguments Raise {E A} e.

(** A numeric array: a list of rows.  Descriptor components are the
    integer values SIFT stores in its float rows. *)
Abbreviation ndarray := (list (list Z)) (only parsing).

(** Reference to an array object on the heap; Python passes arrays by
    reference, so two names may denote one object. *)
Abbreviation ref := nat (only parsing).

Record World := mkWorld {
  fs : gmap string (list Byte.byte);      (* files by path *)
  heap : list ndarray;                    (* array objects, by reference *)
  stdout : list string;                   (* lines printed so far *)
  map_calls : list (list (string * ref))  (* argument lists handed to [map] *)
}.

Definition with_stdout (w : World) (out : list string) : World :=
  mkWorld (fs w) (heap w) out (map_calls w).
Definition with_heap (w : World) (h : list ndarray) : World :=
  mkWorld (fs w) h (stdout w) (map_calls w).
Definition with_map_calls (w : World) (c : list (list (string * ref))) : World :=
  mkWorld (fs w) (heap w) (stdout w) c.

(** Statements of a cell: they read and update the world, and either
    deliver a value or raise. *)
Definition M (A : Type) : Type := World → result raised A * World.

Definition ret {A} (a : A) : M A := λ w, (Ok a, w).
Definition raise {A} (e : raised) : M A := λ w, (Raise e, w).
Definition bind {A B} (m : M A) (k : A → M B) : M B :=
  λ w, match m w with
       | (Ok a, w') => k a w'
       | (Raise e, w') => (Raise e, w')
       end.

(** An exception leaving a library call is not caught by the caller. *)
Definition from_lib {A} (r : result exc A) : result raised A :=
  match r with
  | Ok a => Ok a
  | Raise e => Raise (External e)
  end.

(** [print s] *)
Definition print (s : string) : M unit :=
  λ w, (Ok tt, with_stdout w (stdout w ++ [s])).

(** [len(l)] *)
Definition len {A} (l : list A) : Z := Z.of_nat (length l).

End Py.

Import Py.

Notation "x <- m ;; k" := (bind m (λ x, k))
  (at level 100, m at next level, right associativity, only parsing).
Notation "m >> k" := (bind m (λ _, k))
  (at level 100, right associativity, only parsing).

(** ** OpenCV *)

Module Cv2.

(** A grayscale image, as [imread(_, IMREAD_GRAYSCALE)] delivers it: a
    two-dimensional grid of pixels. *)
Definition Image := list (list Z).

(** [frame.shape] of a two-dimensional array. *)
Definition shape (img : Image) : nat * nat :=
  (length img, length (hd [] img)).

Inductive ImreadFlag := IMREAD_GRAYSCALE | IMREAD_COLOR.
Inductive NormType := NORM_L1 | NORM_L2.

Record KeyPoint := mkKeyPoint { kp_x : Z; kp_y : Z }.

(** [cv2.SIFT(nfeatures=...)] *)
Record SIFT := mkSIFT { nfeatures : Z }.

(** [cv2.xfeatures2d.SIFT_create(nfeatures=...)]: the constructor of the
    same detector under the name the cell of [D_1] calls it by. *)
Definition SIFT_create (n : Z) : SIFT := mkSIFT n.

(** [cv2.BFMatcher(normType, crossCheck=...)] *)
Record BFMatcher := mkBFMatcher { normType : NormType; crossCheck : bool }.

(** [cv2.DMatch]: indices into the query and the train array, and the
    distance between the two rows (squared, for [NORM_L2]). *)
Record DMatch := mkDMatch { queryIdx : nat; trainIdx : nat; distance : Z }.

(** The three library entry points [get_num_matches] calls.  A Python
    name may hold [None] where an array is expected, hence the options. *)
Record Lib := mkLib {
  imread : gmap string (list Byte.byte) → string → ImreadFlag →
           result exc (option Image);
  detectAndCompute : SIFT → option Image →
                     result exc (list KeyPoint * ndarray);
  bf_match : BFMatcher → option ndarray → option ndarray →
             result exc (list DMatch)
}.

(** The image reader looks at no file but the one it is asked for. *)
Definition reads_only_path (lib : Lib) : Prop :=
  ∀ fs1 fs2 p flag,
    fs1 !! p = fs2 !! p → imread lib fs1 p flag = imread lib fs2 p flag.

End Cv2.

Import Cv2.

(** ** The brute-force matcher *)

Module BF.

Abbreviation row := (list Z) (only parsing).

(** Modelled from the spec: the norms of OpenCV's matcher, which is not
    part of the repository; [normL1] for [NORM_L1]. *)
Definition normL1 (a b : row) : Z :=
  foldr Z.add 0%Z (zip_with (λ x y, Z.abs (x - y)) a b).

(** Modelled from the spec: the L2 distance of OpenCV's matcher, taken
    squared.  The L2 norm is the square root, so a row is nearest under
    one exactly when it is nearest under the other. *)
Definition normL2Sqr (a b : row) : Z :=
  foldr Z.add 0%Z (zip_with (λ x y, (x - y) * (x - y))%Z a b).

Definition dist (n : NormType) : row → row → Z :=
  match n with
  | NORM_L1 => normL1
  | NORM_L2 => normL2Sqr
  end.

(** Modelled from the spec: the brute-force search of OpenCV's matcher.
    One pass over the remaining train rows, keeping the best index and
    distance seen so far; a later row replaces the best only when it is
    strictly closer. *)
Fixpoint scan (d : row → Z) (t : list row) (j : nat) (best : nat * Z) : nat * Z :=
  match t with
  | [] => best
  | r :: t' => scan d t' (S j) (if d r <? snd best then (j, d r) else best)%Z
  end.

(** Modelled from the spec: index of, and distance to, the row of [t]
    nearest to [q], by brute force. *)
Definition nearest (d : row → row → Z) (q : row) (t : ndarray) : option (nat * Z) :=
  match t with
  | [] => None
  | r :: t' => Some (scan (d q) t' 1 (0, d q r))
  end.

(** Modelled from the spec: the matcher's cross-check of the pair (i, j);
    the train row j has the query row i as its own nearest row. *)
Definition cross_checked (d : row → row → Z) (Q T : ndarray) (i j : nat) : bool :=
  match T !! j with
  | Some tj =>
      match nearest d tj Q with
      | Some (i', _) => bool_decide (i' = i)
      | None => false
      end
  | None => false
  end.

(** Modelled from the spec: the matches of OpenCV's matcher.  The query
    rows [qs], numbered from [i], each paired with its nearest train row;
    with [cc], only the pairs that pass the cross-check. *)
Fixpoint match_from (d : row → row → Z) (cc : bool) (Q T : ndarray)
    (i : nat) (qs : list row) : list DMatch :=
  match qs with
  | [] => []
  | q :: qs' =>
      match nearest d q T with
      | Some (j, c) =>
          if cc && negb (cross_checked d Q T i j)
          then match_from d cc Q T (S i) qs'
          else mkDMatch i j c :: match_from d cc Q T (S i) qs'
      | None => match_from d cc Q T (S i) qs'
      end
  end.

(** Modelled from the spec: the dimension compatibility the matching
    routine requires; all rows of both arrays have one common width. *)
Definition same_width (Q T : ndarray) : bool :=
  forallb (λ r, length r =? length (hd [] (Q ++ T))) (Q ++ T).

(** Modelled from the spec: the errors OpenCV's matcher raises. *)
Definition bad_argument : exc :=
  Exc "TypeError" "queryDescriptors is not a numerical tuple".
Definition bad_size : exc :=
  Exc "error" "(-215) queryDescriptors.cols == trainDescriptors.cols".

(** Modelled from the spec: [cv2.BFMatcher.match] is OpenCV's and not part
    of the repository.  The spec describes it as brute-force matching of
    descriptor rows under the matcher's norm, keeping with cross-check the
    mutually nearest pairs, and as requiring nothing of the arrays beyond
    compatible dimensions; an argument that is no array, or rows of
    differing width, make the library raise.  Of several rows at the same
    least distance, the one of lowest index is the nearest. *)
Definition BFMatcher_match (m : BFMatcher) (query train : option ndarray)
  : result exc (list DMatch) :=
  match query, train with
  | Some Q, Some T =>
      if same_width Q T
      then Ok (match_from (dist (normType m)) (crossCheck m) Q T 0 Q)
      else Raise bad_size
  | _, _ => Raise bad_argument
  end.

(** Row j of [l] has the least value of [f], and no earlier row has a
    value as small. *)
Definition first_least (f : row → Z) (l : list row) (j : nat) : Prop :=
  ∃ r, l !! j = Some r
       ∧ (∀ k rk, l !! k = Some rk → (f r ≤ f rk)%Z)
       ∧ (∀ k rk, l !! k = Some rk → k < j → (f r < f rk)%Z).

(** The words of the spec, to compare the matcher with: row j of [T] is
    the nearest to [q] when no row is closer and no earlier row as close. *)
Definition is_nearest (d : row → row → Z) (q : row) (T : ndarray) (j : nat) : Prop :=
  first_least (d q) T j.

(** A mutual nearest-neighbour pair: each row is the other's nearest. *)
Definition mutual_nearest (d : row → row → Z) (Q T : ndarray) (i j : nat) : Prop :=
  ∃ qi tj, Q !! i = Some qi ∧ T !! j = Some tj
           ∧ is_nearest d qi T j ∧ is_nearest d tj Q i.

(** [n] is the number of mutual nearest-neighbour pairs of [Q] and [T]:
    some enumeration of exactly those pairs, without repetition, has
    length [n]. *)
Definition mutual_nearest_count (d : row → row → Z) (Q T : ndarray) (n : Z) : Prop :=
  ∃ pairs : list (nat * nat),
    NoDup pairs
    ∧ (∀ i j, (i, j) ∈ pairs ↔ mutual_nearest d Q T i j)
    ∧ n = len pairs.

End BF.

Import BF.

(** ** ipyparallel *)

Module Cluster.

(** What iterating an [AsyncMapResult] yields, in order: the value a unit
    of work returned, or the error its retrieval raises. *)
Definition AsyncMapResult := list (result exc (string * Z)).

(** A load-balanced view: its [map] takes the function and the list of
    work units; scheduling, workers and results are its own business. *)
Record View := mkView {
  view_map : (string * ref → M (string * Z)) → list (string * ref) →
             result exc AsyncMapResult
}.

(** What the decorator [@lview.parallel()] makes of a function. *)
Record ParallelFunction := mkParallelFunction {
  pf_view : View;
  pf_func : string * ref → M (string * Z)
}.

Definition parallel (lview : View) (f : string * ref → M (string * Z))
  : ParallelFunction :=
  mkParallelFunction lview f.

(** [pf.map(args)]; the call is recorded in [map_calls]. *)
Definition pf_map (pf : ParallelFunction) (args : list (string * ref))
  : M AsyncMapResult :=
  λ w, (from_lib (view_map (pf_view pf) (pf_func pf) args),
        with_map_calls w (map_calls w ++ [args])).

(** One step of [for ... in async_res]. *)
Definition next (r : result exc (string * Z)) : M (string * Z) :=
  λ w, (from_lib r, w).

End Cluster.

Import Cluster.

(** ** The cells of the notebook *)

Module Notebook.

(** What the interpreter raises for [frame.shape] when [frame] is [None]. *)
Definition no_shape : exc :=
  Exc "AttributeError" "'NoneType' object has no attribute 'shape'".

(** [frame.shape] *)
Definition getattr_shape (frame : option Image) : M (nat * nat) :=
  match frame with
  | Some img => ret (shape img)
  | None => raise (Glue no_shape)
  end.

(** [repr] of a pair of ints, as [print] shows a shape. *)
Definition repr_shape (s : nat * nat) : string :=
  "(" +:+ pretty (fst s) +:+ ", " +:+ pretty (snd s) +:+ ")".

Section Remote.
Variable cv2 : Lib.

(** [cv2.imread(fname, flag)] *)
Definition cv2_imread (fname : string) (flag : ImreadFlag) : M (option Image) :=
  λ w, (from_lib (imread cv2 (fs w) fname flag), w).

(** [sift.detectAndCompute(frame, mask=None)]; the descriptor array is a
    new object on the heap. *)
Definition sift_detectAndCompute (sift : SIFT) (frame : option Image)
  : M (list KeyPoint * ref) :=
  λ w, match detectAndCompute cv2 sift frame with
       | Ok (kps, arr) =>
           (Ok (kps, length (heap w)), with_heap w (heap w ++ [arr]))
       | Raise e => (Raise (External e), w)
       end.

(** [matcher.match(query, train)] *)
Definition matcher_match (matcher : BFMatcher) (query train : ref)
  : M (list DMatch) :=
  λ w, (from_lib (bf_match cv2 matcher (heap w !! query) (heap w !! train)), w).

(**
<<
@lview.parallel()
def get_num_matches(arg):
    fname, D_src = arg
    import cv2
    frame = cv2.imread(fname, cv2.IMREAD_GRAYSCALE)
    print frame.shape
    sift = cv2.SIFT(nfeatures=5000)
    _, D = sift.detectAndCompute(frame, mask=None)
    matcher = cv2.BFMatcher(cv2.NORM_L2, crossCheck=True)
    matches = matcher.match(D_src, D)
    return fname, len(matches)
>>
*)
Definition get_num_matches (arg : string * ref) : M (string * Z) :=
  let '(fname, D_src) := arg in
  frame <- cv2_imread fname IMREAD_GRAYSCALE ;;
  shp <- getattr_shape frame ;;
  print (repr_shape shp) >>
  let sift := mkSIFT 5000 in
  kd <- sift_detectAndCompute sift frame ;;
  let '(_, D) := kd in
  let matcher := mkBFMatcher NORM_L2 true in
  matches <- matcher_match matcher D_src D ;;
  ret (fname, len matches).

(** What a call adds to standard output: the shape of the frame, when
    there is a frame. *)
Definition printed (fname : string) (w : World) : list string :=
  match imread cv2 (fs w) fname IMREAD_GRAYSCALE with
  | Ok (Some img) => [repr_shape (shape img)]
  | _ => []
  end.

(** The four ways a call of [get_num_matches] can go, by what the library
    calls deliver. *)
Inductive outcome (fname : string) (D_src : ref) (w : World)
  : result raised (string * Z) * World → Prop :=
| read_raises e :
    imread cv2 (fs w) fname IMREAD_GRAYSCALE = Raise e →
    outcome fname D_src w (Raise (External e), w)
| read_none :
    imread cv2 (fs w) fname IMREAD_GRAYSCALE = Ok None →
    outcome fname D_src w (Raise (Glue no_shape), w)
| detect_raises img e :
    imread cv2 (fs w) fname IMREAD_GRAYSCALE = Ok (Some img) →
    detectAndCompute cv2 (mkSIFT 5000) (Some img) = Raise e →
    outcome fname D_src w
      (Raise (External e), with_stdout w (stdout w ++ [repr_shape (shape img)]))
| matched img kps D :
    imread cv2 (fs w) fname IMREAD_GRAYSCALE = Ok (Some img) →
    detectAndCompute cv2 (mkSIFT 5000) (Some img) = Ok (kps, D) →
    outcome fname D_src w
      (match bf_match cv2 (mkBFMatcher NORM_L2 true)
               ((heap w ++ [D]) !! D_src) (Some D) with
       | Ok ms => Ok (fname, len ms)
       | Raise e => Raise (External e)
       end,
       mkWorld (fs w) (heap w ++ [D])
         (stdout w ++ [repr_shape (shape img)]) (map_calls w)).

(** What a call of [get_num_matches] on [fname] delivers, as a function
    of the files and of the array [Q] its [D_src] refers to. *)
Definition match_result (files : gmap string (list Byte.byte))
    (fname : string) (Q : ndarray) : result raised (string * Z) :=
  match imread cv2 files fname IMREAD_GRAYSCALE with
  | Ok (Some img) =>
      match detectAndCompute cv2 (mkSIFT 5000) (Some img) with
      | Ok (_, D) =>
          match bf_match cv2 (mkBFMatcher NORM_L2 true) (Some Q) (Some D) with
          | Ok ms => Ok (fname, len ms)
          | Raise e => Raise (External e)
          end
      | Raise e => Raise (External e)
      end
  | Ok None => Raise (Glue no_shape)
  | Raise e => Raise (External e)
  end.

(**
<<
T1 = cv2.imread('data/templeRing/templeR0001.png', cv2.IMREAD_GRAYSCALE)
sift = cv2.xfeatures2d.SIFT_create(nfeatures=5000)
_, D_1 = sift.detectAndCompute(T1, mask=None)
>>
    The cell delivers the reference [D_1]. *)
Definition reference_path : string := "data/templeRing/templeR0001.png".

Definition cell_D_1 : M ref :=
  T1 <- cv2_imread reference_path IMREAD_GRAYSCALE ;;
  let sift := SIFT_create 5000 in
  kd <- sift_detectAndCompute sift T1 ;;
  let '(_, D_1) := kd in
  ret D_1.

(** [args = [(fname, D_1) for fname in fnames]] *)
Definition build_args (fnames : list string) (D_1 : ref) : list (string * ref) :=
  (λ fname, (fname, D_1)) <$> fnames.

(**
<<
args = [(fname, D_1) for fname in fnames]
async_res = get_num_matches.map(args)
>>
*)
Definition submit (lview : View) (fnames : list string) (D_1 : ref)
  : M AsyncMapResult :=
  let args := build_args fnames D_1 in
  pf_map (parallel lview get_num_matches) args.

End Remote.

(** What [print f, n] writes. *)
Definition show_pair (r : string * Z) : string :=
  fst r +:+ " " +:+ pretty (snd r).

(**
<<
for f, n in async_res:
    print f, n
>>
*)
Fixpoint print_results (async_res : AsyncMapResult) : M unit :=
  match async_res with
  | [] => ret tt
  | r :: rest =>
      fn <- next r ;;
      let '(f, n) := fn in
      print (show_pair (f, n)) >>
      print_results rest
  end.

(** The pairs the loop gets before the first result that fails. *)
Fixpoint yielded (async_res : AsyncMapResult) : list (string * Z) :=
  match async_res with
  | Ok v :: rest => v :: yielded rest
  | _ => []
  end.

(** The error of the first result that fails, if one does. *)
Fixpoint first_error (async_res : AsyncMapResult) : option exc :=
  match async_res with
  | [] => None
  | Ok _ :: rest => first_error rest
  | Raise e :: _ => Some e
  end.

End Notebook.

Import Notebook.

(** ** A small OpenCV and a small cluster to run the cells on

    Stand-ins for the two libraries, not part of the notebook: concrete
    implementations of [Cv2.Lib] and [Cluster.View] on which the cells can
    be evaluated. *)

Module Demo.

(** A file is one row of pixels, a byte each.  As OpenCV does, the reader
    reports a file it cannot read by returning [None], not by raising. *)
Definition demo_imread (files : gmap string (list Byte.byte)) (fname : string)
    (flag : ImreadFlag) : result exc (option Image) :=
  match files !! fname with
  | Some (b :: bs) => Ok (Some [(λ x, Z.of_N (Byte.to_N x)) <$> (b :: bs)])
  | _ => Ok None
  end.

Definition no_image : exc :=
  Exc "error" "(-215) image is empty".

(** One keypoint and one two-component descriptor per pixel. *)
Definition demo_detectAndCompute (sift : SIFT) (frame : option Image)
  : result exc (list KeyPoint * ndarray) :=
  match frame with
  | Some img =>
      Ok (imap (λ x _, mkKeyPoint (Z.of_nat x) 0) (concat img),
          (λ p, [p; 255 - p]%Z) <$> concat img)
  | None => Raise no_image
  end.

Definition cv2 : Lib := mkLib demo_imread demo_detectAndCompute BFMatcher_match.

(** What the client of the captured session raised on [map]. *)
Definition bad_yield : exc :=
  Exc "BadYieldError" "yielded unknown object <Future at 0x7f10477efb50 state=pending>".

Definition broken_view : View := mkView (λ _ _, Raise bad_yield).

(** A view whose workers all start from the world [w] and whose results
    come back in the order of submission. *)
Definition local_view (w : World) : View :=
  mkView (λ f args,
    Ok ((λ a, match fst (f a w) with
              | Ok v => Ok v
              | Raise (Glue e) | Raise (External e) => Raise e
              end) <$> args)).

Definition temple : list Byte.byte := [Byte.x01; Byte.x05; Byte.x09].

Definition files : gmap string (list Byte.byte) :=
  {[ "templeR0001.png" := temple; "templeR0002.png" := [Byte.x05] ]}.

(** [D_1], at reference 0: the descriptors of the first image. *)
Definition world : World :=
  mkWorld files [[[1; 254]; [5; 250]; [9; 246]]%Z] [] [].

(** A session before the cell of [D_1] has run: the reference image where
    the cell looks for it, one array and one line of output already there. *)
Definition fresh_world : World :=
  mkWorld {[ reference_path := temple; "templeR0002.png" := [Byte.x05] ]}
    [[[7; 7]]%Z] ["ready"] [].

End Demo.

(** ** The remote function, step by step *)

Section GlueFacts.
Variable cv2 : Lib.

(** Unfolds a cell down to the library calls it makes. *)
Ltac run_cell :=
  unfold get_num_matches, submit, pf_map, parallel, bind, cv2_imread,
    getattr_shape, print, sift_detectAndCompute, matcher_match, next,
    ret, raise, from_lib; simpl.

Lemma get_num_matches_read_raises fname D_src w e :
  imread cv2 (fs w) fname IMREAD_GRAYSCALE = Raise e →
  get_num_matches cv2 (fname, D_src) w = (Raise (External e), w).
Proof. intros Hread. run_cell. by rewrite Hread. Qed.

Lemma get_num_matches_read_none fname D_src w :
  imread cv2 (fs w) fname IMREAD_GRAYSCALE = Ok None →
  get_num_matches cv2 (fname, D_src) w = (Raise (Glue no_shape), w).
Proof. intros Hread. run_cell. by rewrite Hread. Qed.

Lemma get_num_matches_detect_raises fname D_src w img e :
  imread cv2 (fs w) fname IMREAD_GRAYSCALE = Ok (Some img) →
  detectAndCompute cv2 (mkSIFT 5000) (Some img) = Raise e →
  get_num_matches cv2 (fname, D_src) w
  = (Raise (External e), with_stdout w (stdout w ++ [repr_shape (shape img)])).
Proof. intros Hread Hdet. run_cell. by rewrite Hread, Hdet. Qed.

Lemma get_num_matches_detect_ok fname D_src w img kps D :
  imread cv2 (fs w) fname IMREAD_GRAYSCALE = Ok (Some img) →
  detectAndCompute cv2 (mkSIFT 5000) (Some img) = Ok (kps, D) →
  get_num_matches cv2 (fname, D_src) w
  = (match bf_match cv2 (mkBFMatcher NORM_L2 true)
             ((heap w ++ [D]) !! D_src) (Some D) with
     | Ok ms => Ok (fname, len ms)
     | Raise e => Raise (External e)
     end,
     mkWorld (fs w) (heap w ++ [D])
       (stdout w ++ [repr_shape (shape img)]) (map_calls w)).
Proof.
  intros Hread Hdet. run_cell. rewrite Hread, Hdet. simpl.
  rewrite (list_lookup_middle (heap w) [] D (length (heap w)) eq_refl).
  by destruct (bf_match _ _ _ _).
Qed.

Lemma get_num_matches_outcome fname D_src w :
  outcome cv2 fname D_src w (get_num_matches cv2 (fname, D_src) w).
Proof.
  destruct (imread cv2 (fs w) fname IMREAD_GRAYSCALE) as [[img|]|e] eqn:Hread.
  - destruct (detectAndCompute cv2 (mkSIFT 5000) (Some img)) as [[kps D]|e] eqn:Hdet.
    + rewrite (get_num_matches_detect_ok _ _ _ _ _ _ Hread Hdet).
      by eapply matched.
    + rewrite (get_num_matches_detect_raises _ _ _ _ _ Hread Hdet).
      by eapply detect_raises.
  - rewrite (get_num_matches_read_none _ _ _ Hread). by apply read_none.
  - rewrite (get_num_matches_read_raises _ _ _ _ Hread). by apply read_raises.
Qed.

End GlueFacts.

(** ** Contract of the remote function *)

(** C1.  On an argument pair of a path and a reference to a descriptor
    array, [get_num_matches] returns exactly when the image is read, its
    descriptors are computed and the matcher delivers its matches; it then
    returns the pair of the very path it was given and the number of those
    matches, an integer. *)
Theorem get_num_matches_contract (cv2 : Lib) (fname : string) (D_src : ref)
    (w : World) (Q : ndarray) (v : string * Z) :
  heap w !! D_src = Some Q →
  fst (get_num_matches cv2 (fname, D_src) w) = Ok v
  ↔ ∃ img kps D ms,
      imread cv2 (fs w) fname IMREAD_GRAYSCALE = Ok (Some img)
      ∧ detectAndCompute cv2 (mkSIFT 5000) (Some img) = Ok (kps, D)
      ∧ bf_match cv2 (mkBFMatcher NORM_L2 true) (Some Q) (Some D) = Ok ms
      ∧ v = (fname, len ms).
Proof.
  intros HQ.
  assert (Hsrc : ∀ D : ndarray, (heap w ++ [D]) !! D_src = Some Q).
  { intros D. by apply lookup_app_l_Some. }
  split.
  - intros Hv.
    destruct (get_num_matches_outcome cv2 fname D_src w)
      as [e ?|?|img e ? ?|img kps D Hread Hdet]; simpl in Hv; try discriminate.
    rewrite Hsrc in Hv.
    destruct (bf_match _ _ _ _) as [ms|e] eqn:Hm; [|discriminate].
    exists img, kps, D, ms. by inversion Hv.
  - intros (img & kps & D & ms & Hread & Hdet & Hm & ->).
    rewrite (get_num_matches_detect_ok _ _ _ _ _ _ _ Hread Hdet). simpl.
    by rewrite Hsrc, Hm.
Qed.

Lemma get_num_matches_contract_witness :
  fst (get_num_matches Demo.cv2 ("templeR0001.png", 0) Demo.world)
  = Ok ("templeR0001.png", 3%Z).
Proof.
  apply (get_num_matches_contract Demo.cv2 "templeR0001.png" 0 Demo.world
           [[1; 254]; [5; 250]; [9; 246]]%Z); [reflexivity|].
  exists [[1; 5; 9]%Z],
         [mkKeyPoint 0 0; mkKeyPoint 1 0; mkKeyPoint 2 0],
         [[1; 254]; [5; 250]; [9; 246]]%Z,
         [mkDMatch 0 0 0; mkDMatch 1 1 0; mkDMatch 2 2 0].
  repeat split; vm_compute; reflexivity.
Defined.

(** ** Effects of the remote function *)

(** C2, as stated, does not hold: the call on the first image writes the
    line "(1, 3)" to standard output. *)
Lemma get_num_matches_writes_output :
  stdout (snd (get_num_matches Demo.cv2 ("templeR0001.png", 0) Demo.world))
  = ["(1, 3)"]
  ∧ stdout (snd (get_num_matches Demo.cv2 ("templeR0001.png", 0) Demo.world))
    ≠ stdout Demo.world.
Proof. split; [reflexivity | discriminate]. Qed.

(** C2, amended.  A call of [get_num_matches] leaves the files, the
    arrays that exist and the record of submissions as they were; to
    standard output it adds the shape of the frame as one line when the
    read delivers a frame, and nothing otherwise. *)
Theorem get_num_matches_effects (cv2 : Lib) (fname : string) (D_src : ref)
    (w : World) :
  let w' := snd (get_num_matches cv2 (fname, D_src) w) in
  fs w' = fs w
  ∧ map_calls w' = map_calls w
  ∧ (∀ (l : ref) (a : ndarray), heap w !! l = Some a → heap w' !! l = Some a)
  ∧ stdout w' = stdout w ++ printed cv2 fname w.
Proof.
  unfold printed.
  destruct (get_num_matches_outcome cv2 fname D_src w)
    as [e Hread|Hread|img e Hread ?|img kps D Hread Hdet];
    rewrite Hread; simpl; rewrite ?app_nil_r; repeat split; try done.
  intros l a Hl. by apply lookup_app_l_Some.
Qed.

(** C8.  A call of [get_num_matches] changes no array that exists when it
    is made, the one [D_src] refers to among them; the only change to the
    heap is the new array [D], which at the end of the call still is what
    [detectAndCompute] delivered. *)
Theorem get_num_matches_arrays_unchanged (cv2 : Lib) (fname : string)
    (D_src : ref) (w : World) :
  let w' := snd (get_num_matches cv2 (fname, D_src) w) in
  (∀ (l : ref) (a : ndarray), heap w !! l = Some a → heap w' !! l = Some a)
  ∧ (heap w' = heap w
     ∨ ∃ img kps D,
         imread cv2 (fs w) fname IMREAD_GRAYSCALE = Ok (Some img)
         ∧ detectAndCompute cv2 (mkSIFT 5000) (Some img) = Ok (kps, D)
         ∧ heap w' = heap w ++ [D]
         ∧ heap w' !! length (heap w) = Some D).
Proof.
  destruct (get_num_matches_outcome cv2 fname D_src w)
    as [e Hread|Hread|img e Hread ?|img kps D Hread Hdet]; simpl;
    try (split; [done | by left]).
  split.
  - intros l a Hl. by apply lookup_app_l_Some.
  - right. exists img, kps, D. repeat split; try done.
    by apply list_lookup_middle.
Qed.

(** ** Failures of the remote function *)

(** C3, as stated, does not hold: for a path that names no file the
    reader returns [None], and the error that ends the call is the
    interpreter's, raised for the cell's own [frame.shape]. *)
Lemma get_num_matches_unreadable_glue_error :
  fs Demo.world !! "missing.png" = None
  ∧ fst (get_num_matches Demo.cv2 ("missing.png", 0) Demo.world)
    = Raise (Glue (Exc "AttributeError"
                       "'NoneType' object has no attribute 'shape'"))
  ∧ ¬ ∃ e, fst (get_num_matches Demo.cv2 ("missing.png", 0) Demo.world)
           = Raise (External e).
Proof.
  split; [reflexivity|]. split; [reflexivity|].
  intros [e He]. vm_compute in He. discriminate.
Qed.

(** C3, amended.  An error raised by a library call ([imread],
    [detectAndCompute], or [match] on a malformed descriptor array) ends
    the call of [get_num_matches] with that same error: nothing is caught,
    retried or validated.  When [imread] reports an unreadable path by
    returning [None], the call ends with the [AttributeError] of the
    cell's own [frame.shape]. *)
Theorem get_num_matches_failures (cv2 : Lib) (fname : string) (D_src : ref)
    (w : World) :
  (∀ e, imread cv2 (fs w) fname IMREAD_GRAYSCALE = Raise e →
        fst (get_num_matches cv2 (fname, D_src) w) = Raise (External e))
  ∧ (imread cv2 (fs w) fname IMREAD_GRAYSCALE = Ok None →
     fst (get_num_matches cv2 (fname, D_src) w) = Raise (Glue no_shape))
  ∧ (∀ img e,
       imread cv2 (fs w) fname IMREAD_GRAYSCALE = Ok (Some img) →
       detectAndCompute cv2 (mkSIFT 5000) (Some img) = Raise e →
       fst (get_num_matches cv2 (fname, D_src) w) = Raise (External e))
  ∧ (∀ img kps D Q e,
       heap w !! D_src = Some Q →
       imread cv2 (fs w) fname IMREAD_GRAYSCALE = Ok (Some img) →
       detectAndCompute cv2 (mkSIFT 5000) (Some img) = Ok (kps, D) →
       bf_match cv2 (mkBFMatcher NORM_L2 true) (Some Q) (Some D) = Raise e →
       fst (get_num_matches cv2 (fname, D_src) w) = Raise (External e))
  ∧ (∀ x, fst (get_num_matches cv2 (fname, D_src) w) = Raise (Glue x) →
          x = no_shape ∧ imread cv2 (fs w) fname IMREAD_GRAYSCALE = Ok None).
Proof.
  split; [|split; [|split; [|split]]].
  - intros e Hread. by rewrite (get_num_matches_read_raises _ _ _ _ _ Hread).
  - intros Hread. by rewrite (get_num_matches_read_none _ _ _ _ Hread).
  - intros img e Hread Hdet.
    by rewrite (get_num_matches_detect_raises _ _ _ _ _ _ Hread Hdet).
  - intros img kps D Q e HQ Hread Hdet Hm.
    rewrite (get_num_matches_detect_ok _ _ _ _ _ _ _ Hread Hdet). simpl.
    by rewrite (lookup_app_l_Some _ _ _ _ HQ), Hm.
  - intros x Hx.
    destruct (get_num_matches_outcome cv2 fname D_src w)
      as [e Hread|Hread|img e Hread ?|img kps D Hread Hdet]; simpl in Hx;
      try discriminate.
    + split; [congruence | done].
    + by destruct (bf_match _ _ _ _).
Qed.

(** A reference array whose rows are narrower than the descriptors of the
    image: the matcher's error comes out of the call as it is. *)
Lemma get_num_matches_failures_witness :
  fst (get_num_matches Demo.cv2 ("templeR0001.png", 0)
         (with_heap Demo.world [[[1]; [5]]%Z]))
  = Raise (External bad_size).
Proof.
  apply (get_num_matches_failures Demo.cv2 "templeR0001.png" 0
           (with_heap Demo.world [[[1]; [5]]%Z]))
    with (img := [[1; 5; 9]%Z])
         (kps := [mkKeyPoint 0 0; mkKeyPoint 1 0; mkKeyPoint 2 0])
         (D := [[1; 254]; [5; 250]; [9; 246]]%Z)
         (Q := [[1]; [5]]%Z); reflexivity.
Defined.

(** ** Determinism of the remote function *)

Lemma demo_reads_only_path : reads_only_path Demo.cv2.
Proof. intros fs1 fs2 p flag Hp. simpl. unfold Demo.demo_imread. by rewrite Hp. Qed.

(** C9.  With a reader that looks at the named file only, two calls of
    [get_num_matches] on the same path and the same reference array, made
    in worlds that hold the same content at that path, deliver the same
    result: the same pair, or the same error. *)
Theorem get_num_matches_deterministic (cv2 : Lib) (fname : string)
    (D_src : ref) (Q : ndarray) (w1 w2 : World) :
  reads_only_path cv2 →
  fs w1 !! fname = fs w2 !! fname →
  heap w1 !! D_src = Some Q →
  heap w2 !! D_src = Some Q →
  fst (get_num_matches cv2 (fname, D_src) w1)
  = fst (get_num_matches cv2 (fname, D_src) w2).
Proof.
  intros Hlocal Hfile HQ1 HQ2.
  pose proof (Hlocal (fs w1) (fs w2) fname IMREAD_GRAYSCALE Hfile) as Hread12.
  destruct (get_num_matches_outcome cv2 fname D_src w1)
    as [e Hread|Hread|img e Hread Hdet|img kps D Hread Hdet];
    pose proof Hread as Hread2; rewrite Hread12 in Hread2.
  - by rewrite (get_num_matches_read_raises _ _ _ _ _ Hread2).
  - by rewrite (get_num_matches_read_none _ _ _ _ Hread2).
  - by rewrite (get_num_matches_detect_raises _ _ _ _ _ _ Hread2 Hdet).
  - rewrite (get_num_matches_detect_ok _ _ _ _ _ _ _ Hread2 Hdet). simpl.
    by rewrite (lookup_app_l_Some _ _ _ _ HQ1), (lookup_app_l_Some _ _ _ _ HQ2).
Qed.

(** The same call in a second world, with another file next to the
    image, an extra array on the heap and earlier output on the screen. *)
Lemma get_num_matches_deterministic_witness :
  fst (get_num_matches Demo.cv2 ("templeR0001.png", 0) Demo.world)
  = fst (get_num_matches Demo.cv2 ("templeR0001.png", 0)
           (mkWorld (<["notes.txt" := [Byte.x41]]> Demo.files)
              [[[1; 254]; [5; 250]; [9; 246]]; [[7; 7]]]%Z
              ["(1, 1)"] [])).
Proof.
  apply (get_num_matches_deterministic Demo.cv2 "templeR0001.png" 0
           [[1; 254]; [5; 250]; [9; 246]]%Z).
  - exact demo_reads_only_path.
  - vm_compute. reflexivity.
  - reflexivity.
  - reflexivity.
Defined.

(** ** Submission and collection *)

Lemma with_stdout_twice (w : World) (a b : list string) :
  with_stdout (with_stdout w a) b = with_stdout w b.
Proof. reflexivity. Qed.

Lemma with_stdout_same (w : World) : with_stdout w (stdout w) = w.
Proof. by destruct w. Qed.

(** The loop prints the results that precede the first failed one, and
    stops there with its error; without a failed one it prints them all. *)
Lemma print_results_prefix (rs : list (string * Z))
    (tl : list (result exc (string * Z))) (w : World) :
  print_results ((Ok <$> rs) ++ tl) w
  = print_results tl (with_stdout w (stdout w ++ (show_pair <$> rs))).
Proof.
  revert w. induction rs as [|[f n] rs IH]; intros w; simpl.
  - by rewrite app_nil_r, with_stdout_same.
  - unfold bind, next, print. simpl. rewrite IH. simpl.
    by rewrite with_stdout_twice, <- app_assoc.
Qed.

(** C4.  From a list of file names the submission cell builds one work
    unit per name, in the order of the names: the pair of the name with
    the one reference [D_1]; it hands that whole list to [map] in a single
    call; and the collection loop prints one line, path and count, for
    each pair the result yields, in order. *)
Theorem submit_one_unit_per_file (cv2 : Lib) (lview : View)
    (fnames : list string) (D_1 : ref) (w : World) (rs : list (string * Z)) :
  length (build_args fnames D_1) = length fnames
  ∧ (∀ i : nat,
       build_args fnames D_1 !! i = (λ fname, (fname, D_1)) <$> fnames !! i)
  ∧ fst <$> build_args fnames D_1 = fnames
  ∧ snd <$> build_args fnames D_1 = replicate (length fnames) D_1
  ∧ submit cv2 lview fnames D_1 w
    = (from_lib (view_map lview (get_num_matches cv2) (build_args fnames D_1)),
       with_map_calls w (map_calls w ++ [build_args fnames D_1]))
  ∧ print_results (Ok <$> rs) w
    = (Ok tt, with_stdout w (stdout w ++ (show_pair <$> rs))).
Proof.
  unfold build_args. split; [|split; [|split; [|split; [|split]]]].
  - apply length_fmap.
  - intros i. apply list_lookup_fmap.
  - induction fnames as [|f l IH]; csimpl; [done | by rewrite IH].
  - induction fnames as [|f l IH]; csimpl; [done | by rewrite IH].
  - reflexivity.
  - rewrite <- (app_nil_r (Ok <$> rs)). by rewrite print_results_prefix.
Qed.

(** C7.  An error raised by [map] leaves the submission cell as it is,
    after the one call and no second attempt; an error raised while a
    result is retrieved leaves the collection loop as it is, after the
    lines of the results before it. *)
Theorem submit_errors_unhandled (cv2 : Lib) (lview : View)
    (fnames : list string) (D_1 : ref) (w : World) (e : exc)
    (rs : list (string * Z)) (rest : AsyncMapResult) :
  (view_map lview (get_num_matches cv2) (build_args fnames D_1) = Raise e →
   submit cv2 lview fnames D_1 w
   = (Raise (External e),
      with_map_calls w (map_calls w ++ [build_args fnames D_1])))
  ∧ print_results ((Ok <$> rs) ++ Raise e :: rest) w
    = (Raise (External e), with_stdout w (stdout w ++ (show_pair <$> rs))).
Proof.
  split.
  - intros Hmap. unfold submit, pf_map, parallel. simpl. by rewrite Hmap.
  - by rewrite print_results_prefix.
Qed.

(** The captured session: [map] raises [BadYieldError], and that is what
    the cell ends with. *)
Lemma submit_errors_unhandled_witness :
  fst (submit Demo.cv2 Demo.broken_view
         ["templeR0001.png"; "templeR0002.png"] 0 Demo.world)
  = Raise (External Demo.bad_yield)
  ∧ map_calls (snd (submit Demo.cv2 Demo.broken_view
                      ["templeR0001.png"; "templeR0002.png"] 0 Demo.world))
    = [[("templeR0001.png", 0); ("templeR0002.png", 0)]].
Proof.
  destruct (submit_errors_unhandled Demo.cv2 Demo.broken_view
              ["templeR0001.png"; "templeR0002.png"] 0 Demo.world
              Demo.bad_yield [] []) as [Hsubmit _].
  rewrite Hsubmit by reflexivity. split; reflexivity.
Defined.

(** ** The brute-force scan finds the nearest row *)

Section Scan.
Variable f : row → Z.

Lemma first_least_unique (l : list row) (i j : nat) :
  first_least f l i → first_least f l j → i = j.
Proof.
  intros (ri & Hi & Hmin_i & Hfst_i) (rj & Hj & Hmin_j & Hfst_j).
  destruct (Nat.lt_trichotomy i j) as [Hlt|[Heq|Hlt]]; [|done|].
  - pose proof (Hfst_j i ri Hi Hlt). pose proof (Hmin_i j rj Hj). lia.
  - pose proof (Hfst_i j rj Hj Hlt). pose proof (Hmin_j i ri Hi). lia.
Qed.

(** One step of the scan keeps the invariant: the best index so far is
    the first least of the rows seen so far. *)
Lemma first_least_step (p : list row) (r rb : row) (b : nat) :
  first_least f p b → p !! b = Some rb →
  first_least f (p ++ [r]) (if (f r <? f rb)%Z then length p else b).
Proof.
  intros (rb' & Hb & Hmin & Hfst) Hb'.
  assert (rb' = rb) as -> by congruence.
  assert (Hlen : b < length p) by (by eapply lookup_lt_Some).
  destruct (Z.ltb_spec (f r) (f rb)) as [Hlt|Hge].
  - exists r. split; [by apply list_lookup_middle|]. split.
    + intros k rk Hk. destruct (decide (k < length p)) as [Hin|Hout].
      * rewrite lookup_app_l in Hk by done. pose proof (Hmin k rk Hk). lia.
      * rewrite lookup_app_r in Hk by lia.
        destruct (k - length p) as [|n] eqn:Hn; simpl in Hk; [|done].
        assert (rk = r) as -> by congruence. lia.
    + intros k rk Hk Hk'. rewrite lookup_app_l in Hk by done.
      pose proof (Hmin k rk Hk). lia.
  - exists rb. split; [by apply lookup_app_l_Some|]. split.
    + intros k rk Hk. destruct (decide (k < length p)) as [Hin|Hout].
      * rewrite lookup_app_l in Hk by done. by apply (Hmin k).
      * rewrite lookup_app_r in Hk by lia.
        destruct (k - length p) as [|n] eqn:Hn; simpl in Hk; [|done].
        assert (rk = r) as -> by congruence. lia.
    + intros k rk Hk Hk'. rewrite lookup_app_l in Hk by lia.
      by apply (Hfst k).
Qed.

Lemma scan_first_least (t p : list row) (b : nat) (rb : row) :
  first_least f p b → p !! b = Some rb →
  ∃ r, (p ++ t) !! fst (scan f t (length p) (b, f rb)) = Some r
       ∧ snd (scan f t (length p) (b, f rb)) = f r
       ∧ first_least f (p ++ t) (fst (scan f t (length p) (b, f rb))).
Proof.
  revert p b rb. induction t as [|r t IH]; intros p b rb Hleast Hb; simpl.
  - rewrite app_nil_r. by exists rb.
  - pose proof (first_least_step p r rb b Hleast Hb) as Hstep.
    replace (p ++ r :: t) with ((p ++ [r]) ++ t) by by rewrite <- app_assoc.
    replace (S (length p)) with (length (p ++ [r]))
      by (rewrite length_app; simpl; lia).
    destruct (Z.ltb_spec (f r) (f rb)) as [Hlt|Hge].
    + apply IH; [done|]. by apply list_lookup_middle.
    + apply IH; [done|]. by apply lookup_app_l_Some.
Qed.

End Scan.

Section Matcher.
Variable d : row → row → Z.

Lemma nearest_first_least (q : row) (T : ndarray) (j : nat) (c : Z) :
  nearest d q T = Some (j, c) →
  is_nearest d q T j ∧ ∃ r, T !! j = Some r ∧ c = d q r.
Proof.
  destruct T as [|r t]; simpl; [done|]. intros Hscan.
  destruct (scan_first_least (d q) t [r] 0 r) as (r' & Hr' & Hc & Hleast).
  - exists r. split; [done|]. split.
    + intros [|k] rk Hk; simpl in Hk; [|done].
      assert (rk = r) as -> by congruence. lia.
    + intros k rk _ Hk. lia.
  - done.
  - simpl in Hr', Hc, Hleast.
    assert (Hj : fst (scan (d q) t 1 (0, d q r)) = j)
      by (inversion Hscan as [Hs]; by rewrite Hs).
    assert (Hcc : snd (scan (d q) t 1 (0, d q r)) = c)
      by (inversion Hscan as [Hs]; by rewrite Hs).
    rewrite Hj in Hr', Hleast. rewrite Hcc in Hc.
    split; [done|]. by exists r'.
Qed.

Lemma nearest_Some (q r : row) (T : ndarray) (k : nat) :
  T !! k = Some r → ∃ j c, nearest d q T = Some (j, c).
Proof.
  destruct T as [|r0 t]; [done|]. intros _. simpl.
  destruct (scan (d q) t 1 (0, d q r0)) as [j c]. by exists j, c.
Qed.

Lemma is_nearest_nearest (q r : row) (T : ndarray) (j : nat) :
  is_nearest d q T j → T !! j = Some r → nearest d q T = Some (j, d q r).
Proof.
  intros Hnear Hj.
  destruct (nearest_Some q r T j Hj) as (j' & c' & Hn).
  destruct (nearest_first_least q T j' c' Hn) as (Hnear' & r' & Hj' & ->).
  assert (j' = j) as -> by (by eapply first_least_unique).
  by assert (r' = r) as -> by congruence.
Qed.

Lemma cross_checked_nearest (Q T : ndarray) (i j : nat) :
  cross_checked d Q T i j = true ↔ ∃ tj, T !! j = Some tj ∧ is_nearest d tj Q i.
Proof.
  unfold cross_checked. split.
  - destruct (T !! j) as [tj|] eqn:Hj; [|done].
    destruct (nearest d tj Q) as [[i' c]|] eqn:Hn; [|done].
    intros Hi. apply bool_decide_eq_true in Hi as ->.
    exists tj. split; [done|]. by eapply nearest_first_least.
  - intros (tj & -> & Hnear).
    destruct Hnear as (qi & Hi & Hrest).
    rewrite (is_nearest_nearest tj qi Q i); [|by exists qi|done].
    by apply bool_decide_eq_true.
Qed.

(** The matches of the query rows [qs], numbered from [i]: those whose
    nearest train row passes the cross-check. *)
Lemma elem_of_match_from (Q T : ndarray) (qs : list row) (i : nat) (m : DMatch) :
  m ∈ match_from d true Q T i qs
  ↔ ∃ k q, qs !! k = Some q
           ∧ queryIdx m = i + k
           ∧ nearest d q T = Some (trainIdx m, distance m)
           ∧ cross_checked d Q T (i + k) (trainIdx m) = true.
Proof.
  revert i. induction qs as [|q qs IH]; intros i; simpl.
  - split; [by intros ?%elem_of_nil | by intros (k & q & ? & _)].
  - split.
    + intros Hm.
      destruct (nearest d q T) as [[j c]|] eqn:Hn; simpl in Hm.
      * destruct (cross_checked d Q T i j) eqn:Hcc; simpl in Hm.
        -- apply elem_of_cons in Hm as [->|Hm].
           ++ exists 0, q. simpl. rewrite Nat.add_0_r. by repeat split.
           ++ apply IH in Hm as (k & q' & Hk & Hq & Hnear & Hc).
              exists (S k), q'. replace (i + S k) with (S i + k) by lia.
              by repeat split.
        -- apply IH in Hm as (k & q' & Hk & Hq & Hnear & Hc).
           exists (S k), q'. replace (i + S k) with (S i + k) by lia.
           by repeat split.
      * apply IH in Hm as (k & q' & Hk & Hq & Hnear & Hc).
        exists (S k), q'. replace (i + S k) with (S i + k) by lia.
        by repeat split.
    + intros ([|k] & q' & Hk & Hq & Hnear & Hc); simpl in Hk.
      * assert (q' = q) as -> by congruence.
        rewrite Nat.add_0_r in Hq, Hc. rewrite Hnear, Hc. simpl.
        apply elem_of_cons. left. destruct m; simpl in *. by subst.
      * assert (Hin : m ∈ match_from d true Q T (S i) qs).
        { apply IH. exists k, q'.
          replace (S i + k) with (i + S k) by lia. by repeat split. }
        destruct (nearest d q T) as [[j c]|]; [|done].
        destruct (cross_checked d Q T i j); simpl; [|done].
        by apply elem_of_cons; right.
Qed.

(** Query indices of the matches go up, so none is repeated. *)
Lemma match_from_queryIdx (cc : bool) (Q T : ndarray) (qs : list row) (i : nat) :
  NoDup (queryIdx <$> match_from d cc Q T i qs)
  ∧ ∀ m, m ∈ match_from d cc Q T i qs → i ≤ queryIdx m.
Proof.
  revert i. induction qs as [|q qs IH]; intros i; simpl.
  - split; [constructor | by intros m ?%elem_of_nil].
  - destruct (IH (S i)) as [Hnd Hge].
    assert (Hge' : ∀ m, m ∈ match_from d cc Q T (S i) qs → i ≤ queryIdx m).
    { intros m Hm. specialize (Hge m Hm). lia. }
    destruct (nearest d q T) as [[j c]|]; [|done].
    destruct (cc && negb (cross_checked d Q T i j)); [done|].
    split.
    + csimpl. constructor; [|done].
      intros (m & Hq & Hm)%list_elem_of_fmap. specialize (Hge m Hm).
      simpl in Hq. lia.
    + intros m [->|Hm]%elem_of_cons; [simpl; lia | by apply Hge'].
Qed.

Lemma match_from_length (cc : bool) (Q T : ndarray) (qs : list row) (i : nat) :
  length (match_from d cc Q T i qs) ≤ length qs.
Proof.
  revert i. induction qs as [|q qs IH]; intros i; simpl; [done|].
  specialize (IH (S i)).
  destruct (nearest d q T) as [[j c]|]; [|lia].
  destruct (cc && negb (cross_checked d Q T i j)); simpl; lia.
Qed.

(** The index pairs of the cross-checked matches are the mutual
    nearest-neighbour pairs. *)
Lemma match_pairs_mutual_nearest (Q T : ndarray) (i j : nat) :
  (i, j) ∈ (λ m, (queryIdx m, trainIdx m)) <$> match_from d true Q T 0 Q
  ↔ mutual_nearest d Q T i j.
Proof.
  split.
  - intros (m & Hij & Hm)%list_elem_of_fmap.
    apply elem_of_match_from in Hm as (k & q & Hk & Hq & Hnear & Hcc).
    simpl in Hq, Hcc. inversion Hij; subst i j.
    apply cross_checked_nearest in Hcc as (tj & Hj & Hback).
    exists q, tj. rewrite Hq. repeat split; try done.
    by eapply nearest_first_least.
  - intros (qi & tj & Hi & Hj & Hfwd & Hback).
    apply list_elem_of_fmap. exists (mkDMatch i j (d qi tj)). split; [done|].
    apply elem_of_match_from. exists i, qi. simpl. repeat split; try done.
    + by apply is_nearest_nearest.
    + apply cross_checked_nearest. by exists tj.
Qed.

Lemma match_counts_mutual_nearest (Q T : ndarray) :
  mutual_nearest_count d Q T (len (match_from d true Q T 0 Q)).
Proof.
  exists ((λ m, (queryIdx m, trainIdx m)) <$> match_from d true Q T 0 Q).
  split; [|split].
  - apply (NoDup_fmap_1 fst). rewrite <- list_fmap_compose.
    apply (match_from_queryIdx true Q T Q 0).
  - apply match_pairs_mutual_nearest.
  - unfold len. by rewrite length_fmap.
Qed.

(** Two enumerations of the mutual nearest-neighbour pairs have the same
    length: the pairs have one number. *)
Lemma mutual_nearest_count_unique (Q T : ndarray) (n1 n2 : Z) :
  mutual_nearest_count d Q T n1 → mutual_nearest_count d Q T n2 → n1 = n2.
Proof.
  intros (l1 & Hnd1 & Hin1 & ->) (l2 & Hnd2 & Hin2 & ->).
  unfold len. f_equal. apply Permutation_length.
  apply NoDup_Permutation; [done..|].
  intros [i j]. by rewrite Hin1, Hin2.
Qed.

(** No train row is matched twice: the cross-check names the one query
    row a train row can be matched with. *)
Lemma match_from_trainIdx (Q T : ndarray) (qs : list row) (i : nat) :
  NoDup (trainIdx <$> match_from d true Q T i qs).
Proof.
  revert i. induction qs as [|q qs IH]; intros i; simpl; [constructor|].
  destruct (nearest d q T) as [[j c]|]; [|done].
  destruct (cross_checked d Q T i j) eqn:Hcc; simpl; [|done].
  csimpl. constructor; [|done].
  intros (m & Hj & Hm)%list_elem_of_fmap. simpl in Hj.
  pose proof (proj2 (match_from_queryIdx true Q T qs (S i)) m Hm) as Hge.
  apply elem_of_match_from in Hm as (k & q' & _ & Hq & _ & Hcc').
  rewrite <- Hj in Hcc'.
  apply cross_checked_nearest in Hcc as (tj & Htj & Hi).
  apply cross_checked_nearest in Hcc' as (tj' & Htj' & Hi').
  assert (tj' = tj) as -> by congruence.
  pose proof (first_least_unique _ _ _ _ Hi Hi'). lia.
Qed.

Lemma match_from_trainIdx_bound (cc : bool) (Q T : ndarray) (qs : list row)
    (i : nat) (m : DMatch) :
  m ∈ match_from d cc Q T i qs → trainIdx m < length T.
Proof.
  revert i. induction qs as [|q qs IH]; intros i; simpl.
  - by intros ?%elem_of_nil.
  - destruct (nearest d q T) as [[j c]|] eqn:Hn; [|by apply IH].
    destruct (cc && negb (cross_checked d Q T i j)); [by apply IH|].
    intros [->|Hm]%elem_of_cons; [|by eapply IH]. simpl.
    destruct (nearest_first_least q T j c Hn) as (_ & r & Hj & _).
    by eapply lookup_lt_Some.
Qed.

(** Cross-checked matching is one-to-one, so there are no more matches
    than query rows and no more than train rows. *)
Lemma match_from_at_most (Q T : ndarray) :
  length (match_from d true Q T 0 Q) ≤ length Q
  ∧ length (match_from d true Q T 0 Q) ≤ length T.
Proof.
  split; [apply match_from_length|].
  assert (Hle : length (trainIdx <$> match_from d true Q T 0 Q)
                ≤ length (seq 0 (length T))).
  { apply submseteq_length, NoDup_submseteq; [apply match_from_trainIdx|].
    intros j (m & -> & Hm)%list_elem_of_fmap.
    apply elem_of_seq. split; [lia|]. simpl.
    by eapply match_from_trainIdx_bound. }
  by rewrite length_fmap, length_seq in Hle.
Qed.

End Matcher.

(** ** The squared L2 distance *)

Lemma normL2Sqr_nonneg (a b : row) : (0 ≤ normL2Sqr a b)%Z.
Proof.
  unfold normL2Sqr. revert b.
  induction a as [|x a IH]; intros [|y b]; simpl; try lia.
  specialize (IH b). pose proof (Z.square_nonneg (x - y)) as Hsq.
  unfold Z.square in Hsq. by apply Z.add_nonneg_nonneg.
Qed.

Lemma normL2Sqr_diag (a : row) : normL2Sqr a a = 0%Z.
Proof.
  induction a as [|x a IH]; [done|].
  change (normL2Sqr (x :: a) (x :: a))
    with ((x - x) * (x - x) + normL2Sqr a a)%Z.
  rewrite IH. lia.
Qed.

Lemma normL2Sqr_sym (a b : row) : normL2Sqr a b = normL2Sqr b a.
Proof.
  revert b. induction a as [|x a IH]; intros [|y b]; try done.
  change (((x - y) * (x - y) + normL2Sqr a b
           = (y - x) * (y - x) + normL2Sqr b a)%Z).
  rewrite (IH b). lia.
Qed.

Lemma normL2Sqr_zero (a b : row) :
  length a = length b → normL2Sqr a b = 0%Z → a = b.
Proof.
  revert b. induction a as [|x a IH]; intros [|y b] Hlen Hzero;
    simpl in Hlen; try done.
  change (normL2Sqr (x :: a) (y :: b))
    with ((x - y) * (x - y) + normL2Sqr a b)%Z in Hzero.
  pose proof (normL2Sqr_nonneg a b) as Hpos.
  assert (Hx : x = y) by nia. subst y.
  f_equal. apply IH; lia.
Qed.

Lemma same_width_length (Q T : ndarray) (r1 r2 : row) :
  same_width Q T = true → r1 ∈ Q ++ T → r2 ∈ Q ++ T → length r1 = length r2.
Proof.
  unfold same_width. rewrite forallb_forall.
  intros Hall H1%list_elem_of_In H2%list_elem_of_In.
  pose proof (Hall r1 H1) as E1%Nat.eqb_eq.
  pose proof (Hall r2 H2) as E2%Nat.eqb_eq.
  congruence.
Qed.

(** In an array of distinct rows of one width, each row is its own
    nearest row: it is at distance 0 from itself, and from no other. *)
Lemma is_nearest_self (D : ndarray) (i : nat) (r : row) :
  NoDup D → same_width D D = true → D !! i = Some r →
  is_nearest normL2Sqr r D i.
Proof.
  intros Hnd Hw Hi. exists r. split; [done|]. rewrite normL2Sqr_diag. split.
  - intros k rk _. apply normL2Sqr_nonneg.
  - intros k rk Hk Hlt.
    pose proof (normL2Sqr_nonneg r rk) as Hpos.
    destruct (decide (normL2Sqr r rk = 0%Z)) as [Hzero|Hne]; [|lia].
    apply normL2Sqr_zero in Hzero; last first.
    { apply (same_width_length D D); [done|..];
        apply elem_of_app; left; by eapply list_elem_of_lookup_2. }
    subst rk. pose proof (NoDup_lookup D i k r Hnd Hi Hk). lia.
Qed.

Lemma match_from_self (D : ndarray) (p qs : list row) :
  NoDup D → same_width D D = true → D = p ++ qs →
  length (match_from normL2Sqr true D D (length p) qs) = length qs.
Proof.
  intros Hnd Hw. revert p. induction qs as [|q qs IH]; intros p HD; [done|].
  assert (Hq : D !! length p = Some q) by (subst D; by apply list_lookup_middle).
  pose proof (is_nearest_self D (length p) q Hnd Hw Hq) as Hnear.
  simpl. rewrite (is_nearest_nearest normL2Sqr q q D (length p) Hnear Hq).
  assert (Hcc : cross_checked normL2Sqr D D (length p) (length p) = true).
  { apply cross_checked_nearest. by exists q. }
  rewrite Hcc. simpl. f_equal.
  replace (S (length p)) with (length (p ++ [q]))
    by (rewrite length_app; simpl; lia).
  apply IH. by rewrite <- app_assoc.
Qed.

(** ** What the matcher counts *)

(** C5, as stated, does not hold: a descriptor set that holds one row
    twice has two descriptors, and matched against itself gives one match. *)
Lemma BFMatcher_match_self_repeated_row :
  BFMatcher_match (mkBFMatcher NORM_L2 true)
    (Some [[1; 2]; [1; 2]]%Z) (Some [[1; 2]; [1; 2]]%Z)
  = Ok [mkDMatch 0 0 0]
  ∧ len [mkDMatch 0 0 0] ≠ len [[1; 2]; [1; 2]]%Z.
Proof. split; [reflexivity | discriminate]. Qed.

(** C5, amended.  For every descriptor set [D] of rows of one width in
    which no descriptor occurs twice, matching [D] against itself with the
    matcher of [get_num_matches] (brute force, L2, cross-check) gives as
    many matches as [D] has descriptors. *)
Theorem BFMatcher_match_self (D : ndarray) :
  NoDup D → same_width D D = true →
  ∃ ms, BFMatcher_match (mkBFMatcher NORM_L2 true) (Some D) (Some D) = Ok ms
        ∧ len ms = len D.
Proof.
  intros Hnd Hw. unfold BFMatcher_match. rewrite Hw. simpl.
  eexists. split; [done|]. unfold len. f_equal.
  by apply (match_from_self D [] D).
Qed.

Lemma BFMatcher_match_self_witness :
  ∃ ms, BFMatcher_match (mkBFMatcher NORM_L2 true)
          (Some [[1; 254]; [5; 250]; [9; 246]]%Z)
          (Some [[1; 254]; [5; 250]; [9; 246]]%Z) = Ok ms
        ∧ len ms = 3%Z.
Proof.
  apply (BFMatcher_match_self [[1; 254]; [5; 250]; [9; 246]]%Z).
  - apply (bool_decide_unpack _). vm_compute. exact I.
  - reflexivity.
Defined.

(** What a call returns when [cv2]'s matcher is the brute-force matcher,
    [D_src] refers to [Q], and the image gives the descriptors [D]. *)
Lemma get_num_matches_with_BFMatcher (cv2 : Lib) (fname : string)
    (D_src : ref) (w : World) (Q : ndarray) (img : Image)
    (kps : list KeyPoint) (D : ndarray) :
  bf_match cv2 = BFMatcher_match →
  heap w !! D_src = Some Q →
  imread cv2 (fs w) fname IMREAD_GRAYSCALE = Ok (Some img) →
  detectAndCompute cv2 (mkSIFT 5000) (Some img) = Ok (kps, D) →
  fst (get_num_matches cv2 (fname, D_src) w)
  = if same_width Q D
    then Ok (fname, len (match_from normL2Sqr true Q D 0 Q))
    else Raise (External bad_size).
Proof.
  intros Hbf HQ Hread Hdet.
  rewrite (get_num_matches_detect_ok _ _ _ _ _ _ _ Hread Hdet). simpl.
  rewrite (lookup_app_l_Some _ _ _ _ HQ), Hbf. simpl.
  by destruct (same_width Q D).
Qed.

(** C6.  With the reference descriptors [Q] and the descriptors [D] of
    the image, [get_num_matches] returns exactly when the two arrays have
    rows of one width, and the integer it returns is the number of mutual
    nearest-neighbour pairs of [Q] and [D] under the L2 norm. *)
Theorem get_num_matches_counts_mutual_nearest (cv2 : Lib) (fname : string)
    (D_src : ref) (w : World) (Q : ndarray) (img : Image)
    (kps : list KeyPoint) (D : ndarray) (v : string * Z) :
  bf_match cv2 = BFMatcher_match →
  heap w !! D_src = Some Q →
  imread cv2 (fs w) fname IMREAD_GRAYSCALE = Ok (Some img) →
  detectAndCompute cv2 (mkSIFT 5000) (Some img) = Ok (kps, D) →
  fst (get_num_matches cv2 (fname, D_src) w) = Ok v
  ↔ same_width Q D = true
    ∧ fst v = fname
    ∧ mutual_nearest_count normL2Sqr Q D (snd v).
Proof.
  intros Hbf HQ Hread Hdet.
  rewrite (get_num_matches_with_BFMatcher _ _ _ _ _ _ _ _ Hbf HQ Hread Hdet).
  pose proof (match_counts_mutual_nearest normL2Sqr Q D) as Hcount.
  destruct (same_width Q D); split.
  - intros Hv. inversion Hv; subst v. by repeat split.
  - intros (_ & Hf & Hn). destruct v as [f n]. simpl in Hf, Hn. subst f.
    by rewrite (mutual_nearest_count_unique normL2Sqr Q D _ _ Hn Hcount).
  - done.
  - by intros (? & _).
Qed.

Lemma get_num_matches_counts_mutual_nearest_witness :
  mutual_nearest_count normL2Sqr
    [[1; 254]; [5; 250]; [9; 246]]%Z [[5; 250]]%Z 1.
Proof.
  apply (get_num_matches_counts_mutual_nearest Demo.cv2 "templeR0002.png" 0
           Demo.world [[1; 254]; [5; 250]; [9; 246]]%Z [[5]%Z]
           [mkKeyPoint 0 0] [[5; 250]]%Z ("templeR0002.png", 1%Z));
    reflexivity.
Defined.

(** C10.  When [get_num_matches] returns, with the reference descriptors
    [Q], the count it returns is at most the number of rows of [Q] and at
    most the number of descriptors found in the image. *)
Theorem get_num_matches_count_bounded (cv2 : Lib) (fname : string)
    (D_src : ref) (w : World) (Q : ndarray) (f : string) (n : Z) :
  bf_match cv2 = BFMatcher_match →
  heap w !! D_src = Some Q →
  fst (get_num_matches cv2 (fname, D_src) w) = Ok (f, n) →
  ∃ img kps D,
    imread cv2 (fs w) fname IMREAD_GRAYSCALE = Ok (Some img)
    ∧ detectAndCompute cv2 (mkSIFT 5000) (Some img) = Ok (kps, D)
    ∧ (0 ≤ n)%Z ∧ (n ≤ len Q)%Z ∧ (n ≤ len D)%Z.
Proof.
  intros Hbf HQ Hret.
  destruct (imread cv2 (fs w) fname IMREAD_GRAYSCALE) as [[img|]|e] eqn:Hread.
  - destruct (detectAndCompute cv2 (mkSIFT 5000) (Some img))
      as [[kps D]|e] eqn:Hdet.
    + rewrite (get_num_matches_with_BFMatcher _ _ _ _ _ _ _ _
                 Hbf HQ Hread Hdet) in Hret.
      destruct (same_width Q D); [|discriminate].
      inversion Hret; subst f n.
      destruct (match_from_at_most normL2Sqr Q D) as [HleQ HleD].
      exists img, kps, D. unfold len. repeat split; try done; lia.
    + by rewrite (get_num_matches_detect_raises _ _ _ _ _ _ Hread Hdet) in Hret.
  - by rewrite (get_num_matches_read_none _ _ _ _ Hread) in Hret.
  - by rewrite (get_num_matches_read_raises _ _ _ _ _ Hread) in Hret.
Qed.

Lemma get_num_matches_count_bounded_witness :
  ∃ img kps D,
    imread Demo.cv2 (fs Demo.world) "templeR0002.png" IMREAD_GRAYSCALE
    = Ok (Some img)
    ∧ detectAndCompute Demo.cv2 (mkSIFT 5000) (Some img) = Ok (kps, D)
    ∧ (0 ≤ 1)%Z ∧ (1 ≤ len [[1; 254]; [5; 250]; [9; 246]]%Z)%Z
    ∧ (1 ≤ len D)%Z.
Proof.
  apply (get_num_matches_count_bounded Demo.cv2 "templeR0002.png" 0
           Demo.world [[1; 254]; [5; 250]; [9; 246]]%Z "templeR0002.png" 1);
    reflexivity.
Defined.

(** ** The whole session on the small cluster *)

(** Both cells, one after the other, where the view does its work: two
    units are submitted in one call and two lines come out, in order. *)
Example session_end_to_end :
  ∃ async_res w1,
    submit Demo.cv2 (Demo.local_view Demo.world)
      ["templeR0001.png"; "templeR0002.png"] 0 Demo.world
    = (Ok async_res, w1)
    ∧ map_calls w1 = [[("templeR0001.png", 0); ("templeR0002.png", 0)]]
    ∧ stdout (snd (print_results async_res w1))
      = ["templeR0001.png 3"; "templeR0002.png 1"].
Proof. eexists _, _. split; [reflexivity|]. split; reflexivity. Qed.

(** ** The cell of [D_1] and the calls that follow it *)

Section Session.
Variable cv2 : Lib.

(** The cell of [D_1], down to the two library calls it makes. *)
Lemma cell_D_1_run (w : World) :
  cell_D_1 cv2 w
  = match imread cv2 (fs w) reference_path IMREAD_GRAYSCALE with
    | Ok T1 =>
        match detectAndCompute cv2 (SIFT_create 5000) T1 with
        | Ok (_, D) => (Ok (length (heap w)), with_heap w (heap w ++ [D]))
        | Raise e => (Raise (External e), w)
        end
    | Raise e => (Raise (External e), w)
    end.
Proof.
  unfold cell_D_1, bind, cv2_imread, sift_detectAndCompute, ret, from_lib.
  simpl. destruct (imread cv2 _ _ _) as [T1|e]; [|done].
  by destruct (detectAndCompute cv2 _ T1) as [[kps D]|e].
Qed.

(** The result of a call depends on the world through the files and the
    array [D_src] refers to, and on nothing else. *)
Lemma get_num_matches_result (fname : string) (D_src : ref) (w : World)
    (Q : ndarray) :
  heap w !! D_src = Some Q →
  fst (get_num_matches cv2 (fname, D_src) w) = match_result cv2 (fs w) fname Q.
Proof.
  intros HQ. unfold match_result.
  destruct (imread cv2 (fs w) fname IMREAD_GRAYSCALE) as [[img|]|e] eqn:Hread.
  - destruct (detectAndCompute cv2 (mkSIFT 5000) (Some img))
      as [[kps D]|e] eqn:Hdet.
    + rewrite (get_num_matches_detect_ok _ _ _ _ _ _ _ Hread Hdet). simpl.
      by rewrite (lookup_app_l_Some _ _ _ _ HQ).
    + by rewrite (get_num_matches_detect_raises _ _ _ _ _ _ Hread Hdet).
  - by rewrite (get_num_matches_read_none _ _ _ _ Hread).
  - by rewrite (get_num_matches_read_raises _ _ _ _ _ Hread).
Qed.

(** A call keeps the files, and keeps every array where it is. *)
Lemma get_num_matches_keeps (fname : string) (D_src : ref) (w : World) :
  fs (snd (get_num_matches cv2 (fname, D_src) w)) = fs w
  ∧ ∀ (l : ref) (a : ndarray),
      heap w !! l = Some a →
      heap (snd (get_num_matches cv2 (fname, D_src) w)) !! l = Some a.
Proof.
  destruct (get_num_matches_outcome cv2 fname D_src w)
    as [e Hread|Hread|img e Hread ?|img kps D Hread Hdet]; simpl;
    split; try done.
  intros l a Hl. by apply lookup_app_l_Some.
Qed.

End Session.

(** X1.  The cell of [D_1] has no [frame.shape]: it never ends with an
    error of the cell's own.  When the reader returns [None] for the
    reference image, [None] goes on to [detectAndCompute], and what the
    cell ends with is what that call does with it. *)
Theorem cell_D_1_no_glue_error (cv2 : Lib) (w : World) :
  (∀ e, fst (cell_D_1 cv2 w) ≠ Raise (Glue e))
  ∧ (imread cv2 (fs w) reference_path IMREAD_GRAYSCALE = Ok None →
     match detectAndCompute cv2 (SIFT_create 5000) None with
     | Ok _ => fst (cell_D_1 cv2 w) = Ok (length (heap w))
     | Raise e => fst (cell_D_1 cv2 w) = Raise (External e)
     end).
Proof.
  rewrite cell_D_1_run. split.
  - intros e. destruct (imread cv2 _ _ _) as [T1|e']; [|done].
    by destruct (detectAndCompute cv2 _ T1) as [[kps D]|e'].
  - intros ->. by destruct (detectAndCompute cv2 _ None) as [[kps D]|e'].
Qed.

(** With the small OpenCV, whose detector refuses [None]: the session has
    no reference image, and the cell ends with the detector's error. *)
Lemma cell_D_1_no_glue_error_witness :
  fst (cell_D_1 Demo.cv2 Demo.world) = Raise (External Demo.no_image).
Proof.
  exact (proj2 (cell_D_1_no_glue_error Demo.cv2 Demo.world) eq_refl).
Defined.

(** X2.  The cell of [D_1] prints nothing and changes no file, no array
    and no record of submissions.  When it returns, the reference it
    returns is new, referring to no array before the cell ran, and
    refers to the descriptors [detectAndCompute] delivered. *)
Theorem cell_D_1_effects (cv2 : Lib) (w : World) :
  let w' := snd (cell_D_1 cv2 w) in
  fs w' = fs w
  ∧ stdout w' = stdout w
  ∧ map_calls w' = map_calls w
  ∧ (∀ (l : ref) (a : ndarray), heap w !! l = Some a → heap w' !! l = Some a)
  ∧ (∀ D_1 : ref,
       fst (cell_D_1 cv2 w) = Ok D_1 →
       heap w !! D_1 = None
       ∧ ∃ T1 kps D,
           imread cv2 (fs w) reference_path IMREAD_GRAYSCALE = Ok T1
           ∧ detectAndCompute cv2 (SIFT_create 5000) T1 = Ok (kps, D)
           ∧ heap w' !! D_1 = Some D).
Proof.
  rewrite cell_D_1_run.
  destruct (imread cv2 _ _ _) as [T1|e]; [|by repeat split].
  destruct (detectAndCompute cv2 _ T1) as [[kps D]|e] eqn:Hdet;
    [|by repeat split].
  simpl. do 3 (split; [done|]). split.
  - intros l a Hl. by apply lookup_app_l_Some.
  - intros D_1 HD. inversion HD; subst D_1.
    split; [by apply lookup_ge_None_2|].
    exists T1, kps, D. repeat split; try done. by apply list_lookup_middle.
Qed.

(** X3.  After the cell of [D_1], every work unit built from the
    reference it returned is matched against the very descriptors the
    cell computed: the call on the unit delivers what matching the image
    of its path against those descriptors delivers, in the files as they
    were before the cell. *)
Theorem cell_D_1_then_get_num_matches (cv2 : Lib) (w w1 : World) (D_1 : ref) :
  cell_D_1 cv2 w = (Ok D_1, w1) →
  ∃ T1 kps D,
    imread cv2 (fs w) reference_path IMREAD_GRAYSCALE = Ok T1
    ∧ detectAndCompute cv2 (SIFT_create 5000) T1 = Ok (kps, D)
    ∧ ∀ (fnames : list string) (unit : string * ref),
        unit ∈ build_args fnames D_1 →
        fst (get_num_matches cv2 unit w1)
        = match_result cv2 (fs w) (fst unit) D.
Proof.
  rewrite cell_D_1_run.
  destruct (imread cv2 _ _ _) as [T1|e] eqn:Hread; [|done].
  destruct (detectAndCompute cv2 _ T1) as [[kps D]|e] eqn:Hdet; [|done].
  intros Hcell. inversion Hcell; subst D_1 w1.
  exists T1, kps, D. split; [done|]. split; [done|].
  intros fnames unit (fname & -> & _)%list_elem_of_fmap.
  rewrite (get_num_matches_result cv2 fname _ _ D); [done|].
  by apply list_lookup_middle.
Qed.

Lemma cell_D_1_then_get_num_matches_witness :
  ∃ T1 kps D,
    imread Demo.cv2 (fs Demo.fresh_world) reference_path IMREAD_GRAYSCALE
    = Ok T1
    ∧ detectAndCompute Demo.cv2 (SIFT_create 5000) T1 = Ok (kps, D)
    ∧ ∀ (fnames : list string) (unit : string * ref),
        unit ∈ build_args fnames 1 →
        fst (get_num_matches Demo.cv2 unit
               (with_heap Demo.fresh_world
                  [[[7; 7]]; [[1; 254]; [5; 250]; [9; 246]]]%Z))
        = match_result Demo.cv2 (fs Demo.fresh_world) (fst unit) D.
Proof.
  apply (cell_D_1_then_get_num_matches Demo.cv2 Demo.fresh_world).
  reflexivity.
Defined.

(** X4.  The reference image matched against itself.  When the reference
    image is read and its descriptors [D] are rows of one width, no two
    of them equal, then with the brute-force matcher the cell of [D_1]
    returns, and the call of [get_num_matches] on the reference image
    that follows it returns the number of descriptors of [D]. *)
Theorem reference_image_matches_itself (cv2 : Lib) (w : World) (img : Image)
    (kps : list KeyPoint) (D : ndarray) :
  bf_match cv2 = BFMatcher_match →
  imread cv2 (fs w) reference_path IMREAD_GRAYSCALE = Ok (Some img) →
  detectAndCompute cv2 (mkSIFT 5000) (Some img) = Ok (kps, D) →
  NoDup D →
  same_width D D = true →
  ∃ D_1 w1,
    cell_D_1 cv2 w = (Ok D_1, w1)
    ∧ fst (get_num_matches cv2 (reference_path, D_1) w1)
      = Ok (reference_path, len D).
Proof.
  intros Hbf Hread Hdet Hnd Hw.
  exists (length (heap w)), (with_heap w (heap w ++ [D])). split.
  - rewrite cell_D_1_run, Hread. unfold SIFT_create. by rewrite Hdet.
  - rewrite (get_num_matches_with_BFMatcher cv2 reference_path _ _ D img kps D
               Hbf); [|by apply list_lookup_middle|done..].
    rewrite Hw. unfold len. do 3 f_equal.
    by apply (match_from_self D [] D).
Qed.

Lemma reference_image_matches_itself_witness :
  ∃ D_1 w1,
    cell_D_1 Demo.cv2 Demo.fresh_world = (Ok D_1, w1)
    ∧ fst (get_num_matches Demo.cv2 (reference_path, D_1) w1)
      = Ok (reference_path, 3%Z).
Proof.
  apply (reference_image_matches_itself Demo.cv2 Demo.fresh_world
           [[1; 5; 9]%Z]
           [mkKeyPoint 0 0; mkKeyPoint 1 0; mkKeyPoint 2 0]
           [[1; 254]; [5; 250]; [9; 246]]%Z).
  - reflexivity.
  - reflexivity.
  - reflexivity.
  - apply (bool_decide_unpack _). vm_compute. exact I.
  - reflexivity.
Defined.

(** X5.  Work units do not disturb each other: the result of a call of
    [get_num_matches] is the same after another call as without it. *)
Theorem get_num_matches_independent (cv2 : Lib) (f1 f2 : string)
    (D1 D2 : ref) (Q : ndarray) (w : World) :
  heap w !! D2 = Some Q →
  fst (get_num_matches cv2 (f2, D2) (snd (get_num_matches cv2 (f1, D1) w)))
  = fst (get_num_matches cv2 (f2, D2) w).
Proof.
  intros HQ.
  destruct (get_num_matches_keeps cv2 f1 D1 w) as [Hfs Hheap].
  rewrite (get_num_matches_result cv2 f2 D2 _ Q (Hheap D2 Q HQ)).
  rewrite (get_num_matches_result cv2 f2 D2 w Q HQ).
  by rewrite Hfs.
Qed.

Lemma get_num_matches_independent_witness :
  fst (get_num_matches Demo.cv2 ("templeR0002.png", 0)
         (snd (get_num_matches Demo.cv2 ("templeR0001.png", 0) Demo.world)))
  = fst (get_num_matches Demo.cv2 ("templeR0002.png", 0) Demo.world).
Proof.
  apply (get_num_matches_independent Demo.cv2 "templeR0001.png"
           "templeR0002.png" 0 0 [[1; 254]; [5; 250]; [9; 246]]%Z).
  reflexivity.
Defined.

(** X6.  The collection loop, on any result: it prints one line for each
    pair that comes before the first failed result, in order, and nothing
    after; it ends with the error of that failed result, or returns when
    there is none; and it changes nothing but standard output. *)
Theorem print_results_run (async_res : AsyncMapResult) (w : World) :
  print_results async_res w
  = (match first_error async_res with
     | None => Ok tt
     | Some e => Raise (External e)
     end,
     with_stdout w (stdout w ++ (show_pair <$> yielded async_res))).
Proof.
  revert w. induction async_res as [|[[f n]|e] rest IH]; intros w; simpl.
  - by rewrite app_nil_r, with_stdout_same.
  - unfold bind, next, print. simpl. rewrite IH. simpl.
    by rewrite with_stdout_twice, <- app_assoc.
  - unfold bind, next. simpl. by rewrite app_nil_r, with_stdout_same.
Qed.
